(** * The card store of the Pokemon TCG browser (stores/card.js)

    A shallow embedding of the Pinia store [useCardStore]: its state, its
    [apiKey] getter and its four asynchronous actions [select], [getSet],
    [getRarity] and [getType], together with the properties the design
    document states about them.

    The actions are JavaScript [async] functions that write the store,
    await one HTTP call of an axios instance and catch what it throws.
    They are modelled in a small monad of actions over the store that can
    throw, with the [try]/[catch]/[finally] statement as a combinator.  An
    [await] suspends the action: the environment decides how the request
    is settled and what other code did to the store in the meantime. *)

From Stdlib Require Import ZArith List String Ascii Bool Lia.
From Stdlib Require Import Numbers.DecimalString.
Import ListNotations.
Open Scope string_scope.

(** ** JavaScript values and the string operations the store uses *)

Module Js.

(** The values that travel through the store: payloads of responses,
    the configured key, what is printed on the console. *)
#[warnings="-register-all"] Inductive Value : Type :=
| undefined
| null
| boolean (b : bool)
| number (n : Z)
| text (s : string)
| array (items : list Value)
| object (props : list (string * Value)).

(** ToBoolean, as used by [if (...)] and [||]. *)
Definition truthy (v : Value) : bool :=
  match v with
  | undefined | null => false
  | boolean b => b
  | number n => negb (n =? 0)%Z
  | text s => negb (s =? "")
  | array _ | object _ => true
  end.

(** [a || b] *)
Definition or (a b : Value) : Value := if truthy a then a else b.

(** A parameter with a default value: [undefined] (here [None], the
    argument left out) takes the default. *)
Definition param {A : Type} (dflt : A) (arg : option A) : A :=
  match arg with
  | Some v => v
  | None => dflt
  end.

(** [`${n}`] for an integral number: its decimal numeral. (JavaScript
    switches to exponent notation from 10^21 on; page numbers are far
    below.) *)
Definition Number_toString (n : Z) : string :=
  NilZero.string_of_int (Z.to_int n).

(** [s.replaceAll(pat, rep)] for a pattern of one character. *)
Fixpoint replaceAll (pat : ascii) (rep : string) (s : string) : string :=
  match s with
  | EmptyString => EmptyString
  | String c rest =>
      if Ascii.eqb c pat then rep ++ replaceAll pat rep rest
      else String c (replaceAll pat rep rest)
  end.

(** [xs.push(x)], on an array held in a local variable. *)
Definition push {A : Type} (xs : list A) (x : A) : list A := xs ++ [x].

(** [xs.join(sep)] *)
Definition join (sep : string) (xs : list string) : string :=
  String.concat sep xs.

End Js.

(** ** The axios instance *)

Module Axios.
Import Js.

(** What [apiClient.get(url, { headers })] sends: the instance was
    created with a base URL, the call gives the path and the headers. *)
Record Request : Type := {
  baseURL : string;
  method : string;
  url : string;
  headers : list (string * Value)
}.

Record Response : Type := { data : Value }.

(** The error an awaited call throws: axios rejects with an error
    object, whose [response] is set when the server answered. *)
Record AxiosError : Type := {
  response : option Response;
  message : Value
}.

(** How the promise of a call is settled. *)
Inductive Reply : Type :=
| Resolved (r : Response)
| Rejected (e : AxiosError).

(** [error.response?.data] *)
Definition response_data (e : AxiosError) : Value :=
  match response e with
  | Some r => data r
  | None => undefined
  end.

End Axios.

(** ** Actions over the store *)

Module Effects.
Import Js Axios.

(** [state: () => ({ ... })] *)
Record Store : Type := {
  cards : list Value;
  isLoading : bool;
  name : string;
  set : string;
  rarity : string;
  type : string
}.

(** What an action does that the outside can see, besides its writes to
    the store: the calls it awaits (with the store as it was when the
    action was suspended, how the call was settled and the store as it
    was when the action resumed) and the lines it prints with
    [console.error]. *)
Inductive Event : Type :=
| Awaited (req : Request) (suspended : Store) (reply : Reply) (resumed : Store)
| Logged (label : string) (detail : Value).

(** The surroundings of the store: the runtime configuration the
    [apiKey] getter reads, and what happens while a call is awaited. *)
Record Environment : Type := {
  pokemonTcgApiKey : Value;
  network : Request -> Store -> Reply * Store
}.

Record World : Type := { store : Store; trace : list Event }.

Inductive Completion (A : Type) : Type :=
| Normal (a : A)
| Throw (e : AxiosError).
Arguments Normal {A} a.
Arguments Throw {A} e.

Definition Action (A : Type) : Type :=
  Environment -> World -> Completion A * World.

Definition ret {A : Type} (a : A) : Action A :=
  fun _ w => (Normal a, w).

Definition bind {A B : Type} (c : Action A) (k : A -> Action B) : Action B :=
  fun env w =>
    match c env w with
    | (Normal a, w') => k a env w'
    | (Throw e, w') => (Throw e, w')
    end.

(** [try { body } catch (error) { handler } finally { finalizer }]: the
    finalizer runs however the rest completed, and an exception of its
    own would replace that completion. *)
Definition try_catch_finally {A : Type}
    (body : Action A) (handler : AxiosError -> Action A)
    (finalizer : Action unit) : Action A :=
  fun env w =>
    let (c, w1) :=
      match body env w with
      | (Normal a, w') => (Normal a, w')
      | (Throw e, w') => handler e env w'
      end in
    match finalizer env w1 with
    | (Normal _, w2) => (c, w2)
    | (Throw e, w2) => (Throw e, w2)
    end.

(** A store with one field replaced. *)
Definition with_isLoading (b : bool) (s : Store) : Store :=
  {| cards := cards s; isLoading := b; name := name s;
     set := set s; rarity := rarity s; type := type s |}.
Definition with_name (v : string) (s : Store) : Store :=
  {| cards := cards s; isLoading := isLoading s; name := v;
     set := set s; rarity := rarity s; type := type s |}.
Definition with_set (v : string) (s : Store) : Store :=
  {| cards := cards s; isLoading := isLoading s; name := name s;
     set := v; rarity := rarity s; type := type s |}.
Definition with_rarity (v : string) (s : Store) : Store :=
  {| cards := cards s; isLoading := isLoading s; name := name s;
     set := set s; rarity := v; type := type s |}.
Definition with_type (v : string) (s : Store) : Store :=
  {| cards := cards s; isLoading := isLoading s; name := name s;
     set := set s; rarity := rarity s; type := v |}.

Definition write (f : Store -> Store) : Action unit :=
  fun _ w => (Normal tt, {| store := f (store w); trace := trace w |}).

(** [this.isLoading = b] and the like. *)
Definition assign_isLoading (b : bool) : Action unit := write (with_isLoading b).
Definition assign_name (v : string) : Action unit := write (with_name v).
Definition assign_set (v : string) : Action unit := write (with_set v).
Definition assign_rarity (v : string) : Action unit := write (with_rarity v).
Definition assign_type (v : string) : Action unit := write (with_type v).

(** [console.error(label, detail)] *)
Definition console_error (label : string) (detail : Value) : Action unit :=
  fun _ w =>
    (Normal tt, {| store := store w; trace := trace w ++ [Logged label detail] |}).

(** The request [apiClient.get(path, { headers })] makes; [apiClient] is
    [axios.create({ baseURL: 'https://api.pokemontcg.io/v2' })]. *)
Definition get_request (path : string) (hdrs : list (string * Value)) : Request :=
  {| baseURL := "https://api.pokemontcg.io/v2"; method := "get";
     url := path; headers := hdrs |}.

(** [await apiClient.get(path, { headers })] *)
Definition apiClient_get (path : string) (hdrs : list (string * Value))
  : Action Response :=
  fun env w =>
    let req := get_request path hdrs in
    let (reply, resumed) := network env req (store w) in
    let w' := {| store := resumed;
                 trace := trace w ++ [Awaited req (store w) reply resumed] |} in
    match reply with
    | Resolved r => (Normal r, w')
    | Rejected e => (Throw e, w')
    end.

(** One call of an action on a store, from an empty trace. *)
Record Run (A : Type) : Type := {
  result : Completion A;
  final : Store;
  events : list Event
}.
Arguments result {A} r.
Arguments final {A} r.
Arguments events {A} r.

Definition run {A : Type} (a : Action A) (env : Environment) (s : Store) : Run A :=
  let (c, w) := a env {| store := s; trace := [] |} in
  {| result := c; final := store w; events := trace w |}.

End Effects.

Declare Scope action_scope.
Delimit Scope action_scope with action.
Notation "x <- c ;; k" := (Effects.bind c (fun x => k))
  (at level 61, c at next level, right associativity) : action_scope.
Notation "c ;; k" := (Effects.bind c (fun _ => k))
  (at level 61, right associativity) : action_scope.

(** ** The store *)

Module CardStore.
Import Js Axios Effects.
Local Open Scope action_scope.

(** [state: () => ({ cards: [], isLoading: false, name: "", ... })] *)
Definition state : Store :=
  {| cards := []; isLoading := false; name := ""; set := "";
     rarity := ""; type := "" |}.

(** [getters.apiKey]: [useRuntimeConfig().public.pokemonTcgApiKey] *)
Definition apiKey : Action Value :=
  fun env w => (Normal (pokemonTcgApiKey env), w).

(** [{ data: [], totalCount: 0, count: 0 }] *)
Definition select_fallback : Value :=
  object [("data", array []); ("totalCount", number 0); ("count", number 0)].

(** [{ data: [] }] *)
Definition list_fallback : Value := object [("data", array [])].

(** [async select(page = 0, pageSize = 0, name = "", set = "", rarity = "",
    type = "")] (card.js, lines 28 to 84).  The filters are texts and the
    page numbers integers; an argument left out is [None]. *)
Definition select (page pageSize : option Z) (name set rarity type : option string)
  : Action Value :=
  let page := param 0%Z page in
  let pageSize := param 0%Z pageSize in
  let name := param "" name in
  let set := param "" set in
  let rarity := param "" rarity in
  let type := param "" type in
  assign_isLoading true ;;
  let path := "/cards?page=" ++ Number_toString page
              ++ "&pageSize=" ++ Number_toString pageSize ++ "&" in
  let pathQuery := [] in
  pathQuery <-
    (if truthy (text name) then
       let pathQuery := push pathQuery ("name:" ++ replaceAll " " "*" name ++ "*") in
       assign_name name ;; ret pathQuery
     else ret pathQuery) ;;
  pathQuery <-
    (if truthy (text set) then
       let pathQuery := push pathQuery ("set.name:" ++ replaceAll " " "*" set ++ "*") in
       assign_set set ;; ret pathQuery
     else ret pathQuery) ;;
  pathQuery <-
    (if truthy (text rarity) then
       let pathQuery := push pathQuery ("rarity:" ++ replaceAll " " "*" rarity ++ "*") in
       assign_rarity rarity ;; ret pathQuery
     else ret pathQuery) ;;
  pathQuery <-
    (if truthy (text type) then
       let pathQuery := push pathQuery ("types:" ++ replaceAll " " "*" type) in
       assign_type type ;; ret pathQuery
     else ret pathQuery) ;;
  let path :=
    if (0 <? List.length pathQuery)%nat
    then path ++ "q=" ++ join " AND " pathQuery
    else path in
  try_catch_finally
    (key <- apiKey ;;
     response <- apiClient_get path [("X-Api-Key", key)] ;;
     ret (data response))
    (fun error =>
       console_error "API Error:" (Js.or (response_data error) (message error)) ;;
       ret select_fallback)
    (assign_isLoading false).

(** [async getSet()], [async getRarity()] and [async getType()] (card.js,
    lines 86 to 141). *)
Definition getSet : Action Value :=
  assign_isLoading true ;;
  try_catch_finally
    (key <- apiKey ;;
     response <- apiClient_get "/sets" [("X-Api-Key", key)] ;;
     ret (data response))
    (fun error =>
       console_error "getSet Error:" (Js.or (response_data error) (message error)) ;;
       ret list_fallback)
    (assign_isLoading false).

Definition getRarity : Action Value :=
  assign_isLoading true ;;
  try_catch_finally
    (key <- apiKey ;;
     response <- apiClient_get "/rarities" [("X-Api-Key", key)] ;;
     ret (data response))
    (fun error =>
       console_error "getRarity Error:" (Js.or (response_data error) (message error)) ;;
       ret list_fallback)
    (assign_isLoading false).

Definition getType : Action Value :=
  assign_isLoading true ;;
  try_catch_finally
    (key <- apiKey ;;
     response <- apiClient_get "/types" [("X-Api-Key", key)] ;;
     ret (data response))
    (fun error =>
       console_error "getType Error:" (Js.or (response_data error) (message error)) ;;
       ret list_fallback)
    (assign_isLoading false).

(** [actions: { select, getSet, getRarity, getType }]: a call of one of
    the four actions, with its arguments. *)
Inductive Call : Type :=
| Select (page pageSize : option Z) (name set rarity type : option string)
| GetSet
| GetRarity
| GetType.

Definition invoke (c : Call) : Action Value :=
  match c with
  | Select page pageSize name set rarity type =>
      select page pageSize name set rarity type
  | GetSet => getSet
  | GetRarity => getRarity
  | GetType => getType
  end.

(** [for (const c of calls) results.push(await c())]: calls made one
    after the other, each awaited before the next. *)
Fixpoint invoke_all (calls : list Call) : Action (list Value) :=
  match calls with
  | [] => ret []
  | c :: rest =>
      v <- invoke c ;;
      vs <- invoke_all rest ;;
      ret (v :: vs)
  end.

End CardStore.

Import Js Axios Effects CardStore.
Local Open Scope action_scope.

(** ** What a run lets one observe *)

Module Observe.

(** The requests a run issued, in order. *)
Fixpoint requests (evs : list Event) : list Request :=
  match evs with
  | [] => []
  | Awaited req _ _ _ :: rest => req :: requests rest
  | Logged _ _ :: rest => requests rest
  end.

(** The store as it stood each time the run was suspended on a call. *)
Fixpoint suspensions (evs : list Event) : list Store :=
  match evs with
  | [] => []
  | Awaited _ seen _ _ :: rest => seen :: suspensions rest
  | Logged _ _ :: rest => suspensions rest
  end.

(** The store as it stood each time the run resumed after a call. *)
Fixpoint resumptions (evs : list Event) : list Store :=
  match evs with
  | [] => []
  | Awaited _ _ _ back :: rest => back :: resumptions rest
  | Logged _ _ :: rest => resumptions rest
  end.

(** The paths of the requests of a run. *)
Definition paths {A : Type} (r : Run A) : list string :=
  List.map url (requests (events r)).

(** The four text filters of [select] and the fields of the store that
    echo them. *)
Inductive Filter : Type := ByName | BySet | ByRarity | ByType.

Definition echo (f : Filter) (s : Store) : string :=
  match f with
  | ByName => name s
  | BySet => set s
  | ByRarity => rarity s
  | ByType => type s
  end.

Definition argument (f : Filter) (c : Call) : option string :=
  match c with
  | Select _ _ name set rarity type =>
      match f with
      | ByName => name
      | BySet => set
      | ByRarity => rarity
      | ByType => type
      end
  | _ => None
  end.

(** Nothing else writes the store while a call is awaited. *)
Definition undisturbed (env : Environment) : Prop :=
  forall req s, snd (network env req s) = s.

End Observe.

Import Observe.

(** ** The query of [select] in the words of the design document *)

Module Spec.

(** The field a filter is matched against. *)
Definition field (f : Filter) : string :=
  match f with
  | ByName => "name:"
  | BySet => "set.name:"
  | ByRarity => "rarity:"
  | ByType => "types:"
  end.

(** The clause of a filter value: the field, the value with its spaces
    turned into wildcards, and a trailing wildcard except for the type. *)
Definition clause_of (f : Filter) (v : string) : string :=
  match f with
  | ByName => "name:" ++ replaceAll " " "*" v ++ "*"
  | BySet => "set.name:" ++ replaceAll " " "*" v ++ "*"
  | ByRarity => "rarity:" ++ replaceAll " " "*" v ++ "*"
  | ByType => "types:" ++ replaceAll " " "*" v
  end.

(** A filter is specified when it is given and not empty. *)
Definition specified (arg : option string) : bool :=
  match arg with
  | None => false
  | Some v => negb (v =? "")
  end.

(** An unspecified filter has no clause, a specified one has one. *)
Definition clause (f : Filter) (arg : option string) : list string :=
  match arg with
  | None => []
  | Some v => if v =? "" then [] else [clause_of f v]
  end.

(** The clauses of a search, in the order name, set, rarity, type. *)
Definition clauses (name set rarity type : option string) : list string :=
  clause ByName name ++ clause BySet set
  ++ clause ByRarity rarity ++ clause ByType type.

(** The pagination parameters, which every path starts with. *)
Definition pagination (page pageSize : option Z) : string :=
  "/cards?page=" ++ Number_toString (param 0%Z page)
  ++ "&pageSize=" ++ Number_toString (param 0%Z pageSize) ++ "&".

(** The [q] parameter: left out when there is no clause. *)
Definition q (cs : list string) : string :=
  match cs with
  | [] => ""
  | _ :: _ => "q=" ++ String.concat " AND " cs
  end.

Definition path (page pageSize : option Z) (name set rarity type : option string)
  : string :=
  pagination page pageSize ++ q (clauses name set rarity type).

(** The echo of a filter after a search: the raw value if the filter
    was specified, the old echo otherwise. *)
Definition recorded (arg : option string) (old : string) : string :=
  match arg with
  | None => old
  | Some v => if v =? "" then old else v
  end.

Definition echoes (name set rarity type : option string) (s : Store) : Store :=
  {| cards := cards s; isLoading := isLoading s;
     name := recorded name (Effects.name s);
     set := recorded set (Effects.set s);
     rarity := recorded rarity (Effects.rarity s);
     type := recorded type (Effects.type s) |}.

End Spec.

(** ** The common shape of the four actions *)

Section Settle.

Variables (label path : string) (fallback : Value).

(** The [try] statement the four actions end with. *)
Definition settle : Action Value :=
  try_catch_finally
    (key <- apiKey ;;
     response <- apiClient_get path [("X-Api-Key", key)] ;;
     ret (data response))
    (fun error =>
       console_error label (Js.or (response_data error) (message error)) ;;
       ret fallback)
    (assign_isLoading false).

(** What the statement returns and prints, by the reply to its call. *)
Definition outcome (reply : Reply) : Value :=
  match reply with
  | Resolved r => data r
  | Rejected _ => fallback
  end.

Definition report (reply : Reply) : list Event :=
  match reply with
  | Resolved _ => []
  | Rejected e => [Logged label (Js.or (response_data e) (message e))]
  end.

End Settle.

(** The path, the label of the log line and the fallback of each action,
    and the store as the action leaves it before its call. *)
Definition route (c : Call) : string :=
  match c with
  | Select page pageSize name set rarity type =>
      Spec.path page pageSize name set rarity type
  | GetSet => "/sets"
  | GetRarity => "/rarities"
  | GetType => "/types"
  end.

Definition label_of (c : Call) : string :=
  match c with
  | Select _ _ _ _ _ _ => "API Error:"
  | GetSet => "getSet Error:"
  | GetRarity => "getRarity Error:"
  | GetType => "getType Error:"
  end.

Definition fallback_of (c : Call) : Value :=
  match c with
  | Select _ _ _ _ _ _ => select_fallback
  | _ => list_fallback
  end.

Definition prepared (c : Call) (s : Store) : Store :=
  match c with
  | Select _ _ name set rarity type =>
      Spec.echoes name set rarity type (with_isLoading true s)
  | _ => with_isLoading true s
  end.

(** An environment in which every call fails for want of a connection,
    and one in which every call is answered with an empty listing. *)
Definition offline : Environment :=
  {| pokemonTcgApiKey := text "key";
     network := fun _ st =>
       (Rejected {| response := None; message := text "Network Error" |}, st) |}.

Definition online : Environment :=
  {| pokemonTcgApiKey := text "key";
     network := fun _ st => (Resolved {| data := object [("data", array [])] |}, st) |}.

(** ** Observations and scenarios for the further properties *)

(** Does a text hold a space? *)
Fixpoint has_space (s : string) : bool :=
  match s with
  | EmptyString => false
  | String c rest => Ascii.eqb c " " || has_space rest
  end.

(** [c.repeat(n)] *)
Fixpoint repeat_char (c : ascii) (n : nat) : string :=
  match n with
  | O => EmptyString
  | S m => String c (repeat_char c m)
  end.

(** The echo of a filter after a series of calls on a store that nothing
    else writes: each call that specifies the filter replaces it. *)
Definition echo_after (f : Filter) (calls : list Call) (old : string) : string :=
  List.fold_left (fun e c => Spec.recorded (argument f c) e) calls old.

(** Overlapping calls: while a call is awaited, another call is made and
    completes in [env]; only then the first call is settled, with [reply]. *)
Definition meanwhile (other : Call) (env : Environment) (reply : Reply)
  : Environment :=
  {| pokemonTcgApiKey := pokemonTcgApiKey env;
     network := fun _ st => (reply, final (run (invoke other) env st)) |}.

(** * Symbolic execution of the actions *)

Lemma settle_run (label path : string) (fallback : Value)
    (env : Environment) (w : World) :
  let req := get_request path [("X-Api-Key", pokemonTcgApiKey env)] in
  let reply := fst (network env req (store w)) in
  let back := snd (network env req (store w)) in
  settle label path fallback env w =
    (Normal (outcome fallback reply),
     {| store := with_isLoading false back;
        trace := trace w ++ Awaited req (store w) reply back :: report label reply |}).
Proof.
  intros req reply back. subst reply back.
  unfold settle, try_catch_finally, bind, apiKey, apiClient_get, ret,
    console_error, assign_isLoading, write.
  fold req. destruct (network env req (store w)) as [[r | e] st]; simpl.
  - reflexivity.
  - rewrite <- app_assoc. reflexivity.
Qed.

Lemma append_empty_r (s : string) : s ++ "" = s.
Proof. induction s as [| c s IH]; simpl; [reflexivity | now rewrite IH]. Qed.

Lemma select_settle page pageSize name set rarity type env w :
  select page pageSize name set rarity type env w =
    settle "API Error:" (Spec.path page pageSize name set rarity type) select_fallback env
      {| store := Spec.echoes name set rarity type (with_isLoading true (store w));
         trace := trace w |}.
Proof.
  unfold select, Spec.path, Spec.clauses, Spec.echoes.
  fold (Spec.pagination page pageSize).
  generalize (Spec.pagination page pageSize) as base. intro base.
  destruct name as [n | ], set as [st | ], rarity as [r | ], type as [t | ];
    cbn [param truthy Spec.clause Spec.clause_of Spec.recorded String.eqb];
    repeat match goal with
           | |- context [(?v =? "")] => destruct (v =? "")
           end;
    cbn [negb app Spec.q]; rewrite ?append_empty_r; reflexivity.
Qed.

Lemma invoke_settle (c : Call) (env : Environment) (w : World) :
  invoke c env w =
    settle (label_of c) (route c) (fallback_of c) env
      {| store := prepared c (store w); trace := trace w |}.
Proof.
  destruct c; simpl; [apply select_settle | reflexivity ..].
Qed.

(** Every call suspends once, on one request, and completes normally. *)
Lemma invoke_world (c : Call) (env : Environment) (w : World) :
  let req := get_request (route c) [("X-Api-Key", pokemonTcgApiKey env)] in
  let seen := prepared c (store w) in
  let reply := fst (network env req seen) in
  let back := snd (network env req seen) in
  invoke c env w =
    (Normal (outcome (fallback_of c) reply),
     {| store := with_isLoading false back;
        trace := trace w ++ Awaited req seen reply back :: report (label_of c) reply |}).
Proof.
  intros. rewrite invoke_settle. apply settle_run.
Qed.

Lemma invoke_run (c : Call) (env : Environment) (s : Store) :
  let req := get_request (route c) [("X-Api-Key", pokemonTcgApiKey env)] in
  let seen := prepared c s in
  let reply := fst (network env req seen) in
  let back := snd (network env req seen) in
  run (invoke c) env s =
    {| result := Normal (outcome (fallback_of c) reply);
       final := with_isLoading false back;
       events := Awaited req seen reply back :: report (label_of c) reply |}.
Proof.
  intros. unfold run. rewrite invoke_world. reflexivity.
Qed.

(** Log lines are no requests. *)
Lemma report_quiet (l : string) (reply : Reply) :
  requests (report l reply) = [] /\ suspensions (report l reply) = []
  /\ resumptions (report l reply) = [].
Proof. destruct reply; simpl; auto. Qed.

Lemma select_paths page pageSize name set rarity type env s :
  paths (run (select page pageSize name set rarity type) env s) =
    [Spec.path page pageSize name set rarity type].
Proof.
  change (select page pageSize name set rarity type)
    with (invoke (Select page pageSize name set rarity type)).
  unfold paths. rewrite invoke_run. simpl.
  destruct (report_quiet "API Error:"
              (fst (network env
                 (get_request (Spec.path page pageSize name set rarity type)
                    [("X-Api-Key", pokemonTcgApiKey env)])
                 (Spec.echoes name set rarity type (with_isLoading true s)))))
    as [-> _].
  reflexivity.
Qed.

(** [replaceAll(" ", "*")] changes the spaces, and only them. *)
Lemma replaceAll_get (v : string) (i : nat) :
  String.get i (replaceAll " " "*" v) =
    option_map (fun c => if Ascii.eqb c " " then "*"%char else c) (String.get i v).
Proof.
  revert i. induction v as [| c v IH]; intro i; simpl.
  - reflexivity.
  - destruct (Ascii.eqb c " ") eqn:E; simpl; destruct i; simpl;
      rewrite ?E; auto.
Qed.

Lemma clause_present (f : Filter) (v : string) :
  v <> "" -> Spec.clause f (Some v) = [Spec.clause_of f v].
Proof.
  intro H. unfold Spec.clause.
  destruct (v =? "") eqn:E; [apply String.eqb_eq in E; contradiction | reflexivity].
Qed.

Lemma clause_length (f : Filter) (arg : option string) :
  List.length (Spec.clause f arg) = if Spec.specified arg then 1%nat else 0%nat.
Proof.
  destruct arg as [v | ]; simpl; [destruct (v =? ""); reflexivity | reflexivity].
Qed.

Lemma clauses_length (name set rarity type : option string) :
  List.length (Spec.clauses name set rarity type) =
    List.length (List.filter Spec.specified [name; set; rarity; type]).
Proof.
  unfold Spec.clauses. rewrite !length_app, !clause_length. simpl.
  destruct (Spec.specified name), (Spec.specified set),
    (Spec.specified rarity), (Spec.specified type); reflexivity.
Qed.

Lemma q_present (cs : list string) :
  cs <> [] -> Spec.q cs = "q=" ++ String.concat " AND " cs.
Proof. destruct cs; [congruence | reflexivity]. Qed.

Lemma clause_in_clauses (f : Filter) (v : string) page pageSize name set rarity type :
  argument f (Select page pageSize name set rarity type) = Some v ->
  v <> "" ->
  In (Spec.clause_of f v) (Spec.clauses name set rarity type).
Proof.
  intros Harg Hv. unfold Spec.clauses.
  destruct f; simpl in Harg; subst; rewrite (clause_present _ v Hv);
    repeat (apply in_or_app; first [left; now left | right]).
  now left.
Qed.

(** * The properties of the design document *)

(** ** Construction of the query *)

(** C1. In every call of [select], a filter given with a non-empty value
    [v] has its own clause among the clauses that are joined into the [q]
    parameter of the request: [name:] for the name, [set.name:] for the
    set, [rarity:] for the rarity, each followed by the transformed value
    and one trailing wildcard, and [types:] followed by the transformed
    value alone for the type.  The transformed value is [v] with each
    space replaced by a wildcard and every other character kept.  A search
    for the name "pika chu" alone asks for [name:pika*chu*]. *)
Theorem select_clause_per_filter :
  forall (page pageSize : option Z) (name set rarity type : option string)
         (env : Environment) (s : Store) (f : Filter) (v : string),
    argument f (Select page pageSize name set rarity type) = Some v ->
    v <> "" ->
    paths (run (select page pageSize name set rarity type) env s) =
      [Spec.pagination page pageSize ++ "q="
       ++ String.concat " AND " (Spec.clauses name set rarity type)]
    /\ In (match f with
           | ByName => "name:" ++ replaceAll " " "*" v ++ "*"
           | BySet => "set.name:" ++ replaceAll " " "*" v ++ "*"
           | ByRarity => "rarity:" ++ replaceAll " " "*" v ++ "*"
           | ByType => "types:" ++ replaceAll " " "*" v
           end) (Spec.clauses name set rarity type)
    /\ (forall i : nat,
          String.get i (replaceAll " " "*" v) =
            option_map (fun c => if Ascii.eqb c " " then "*"%char else c)
              (String.get i v))
    /\ paths (run (select None None (Some "pika chu") None None None) env s) =
         ["/cards?page=0&pageSize=0&q=name:pika*chu*"].
Proof.
  intros page pageSize name set rarity type env s f v Harg Hv.
  pose proof (clause_in_clauses f v page pageSize name set rarity type Harg Hv) as Hin.
  repeat split.
  - rewrite select_paths. unfold Spec.path. rewrite q_present; [reflexivity |].
    intro E. rewrite E in Hin. destruct Hin.
  - exact Hin.
  - intro i. apply replaceAll_get.
  - rewrite select_paths. reflexivity.
Qed.

Lemma select_clause_per_filter_witness :
  paths (run (select (Some 2%Z) (Some 20%Z) None None (Some "Rare Holo") None)
           {| pokemonTcgApiKey := text "key";
              network := fun _ st => (Resolved {| data := object [] |}, st) |}
           state) =
    ["/cards?page=2&pageSize=20&q=rarity:Rare*Holo*"].
Proof.
  refine (proj1 (select_clause_per_filter (Some 2%Z) (Some 20%Z) None None
                   (Some "Rare Holo") None _ state ByRarity "Rare Holo" _ _)).
  - reflexivity.
  - discriminate.
Defined.

(** C3. In every call of [select] the path is the pagination followed by
    the [q] parameter of the clauses of the specified filters.  A filter
    that is left out or given as the empty string has no clause there: no
    clause of the query is on its field.  With no argument at all the
    path is exactly [/cards?page=0&pageSize=0&], without a [q]
    parameter. *)
Theorem select_omits_unspecified :
  forall (page pageSize : option Z) (name set rarity type : option string)
         (env : Environment) (s : Store) (f : Filter),
    argument f (Select page pageSize name set rarity type) = None
    \/ argument f (Select page pageSize name set rarity type) = Some "" ->
    paths (run (select page pageSize name set rarity type) env s) =
      [Spec.pagination page pageSize
       ++ match Spec.clauses name set rarity type with
          | [] => ""
          | cs => "q=" ++ String.concat " AND " cs
          end]
    /\ List.forallb (fun cl => negb (String.prefix (Spec.field f) cl))
         (Spec.clauses name set rarity type) = true
    /\ List.length (Spec.clauses name set rarity type) =
         List.length (List.filter Spec.specified [name; set; rarity; type])
    /\ paths (run (select None None None None None None) env s) =
         ["/cards?page=0&pageSize=0&"].
Proof.
  intros page pageSize name set rarity type env s f Harg.
  repeat split.
  - rewrite select_paths. unfold Spec.path, Spec.q.
    destruct (Spec.clauses name set rarity type); reflexivity.
  - unfold Spec.clauses. rewrite !forallb_app.
    assert (Hone : forall g arg,
               (g = f -> arg = None \/ arg = Some "") ->
               forallb (fun cl => negb (String.prefix (Spec.field f) cl))
                 (Spec.clause g arg) = true).
    { intros g arg Hg. destruct arg as [v | ]; simpl; [| reflexivity].
      destruct (v =? "") eqn:E; [reflexivity |].
      destruct f, g; try reflexivity;
        destruct (Hg eq_refl) as [H | H]; try discriminate;
        injection H as ->; discriminate. }
    rewrite !Hone; [reflexivity | ..]; intros <-; exact Harg.
  - apply clauses_length.
  - rewrite select_paths. reflexivity.
Qed.

Lemma select_omits_unspecified_witness :
  paths (run (select None None (Some "") None None (Some "Fire"))
           {| pokemonTcgApiKey := text "key";
              network := fun _ st => (Resolved {| data := object [] |}, st) |}
           state) =
    ["/cards?page=0&pageSize=0&q=types:Fire"].
Proof.
  refine (proj1 (select_omits_unspecified None None (Some "") None None
                   (Some "Fire") _ state ByName _)).
  right. reflexivity.
Defined.

(** C4. In a call of [select] with at least two specified filters, the
    request carries one [q] parameter: the clauses of the specified
    filters, in the order name, set, rarity, type, one for each, joined
    with [" AND "]. *)
Theorem select_joins_in_order :
  forall (page pageSize : option Z) (name set rarity type : option string)
         (env : Environment) (s : Store),
    (2 <= List.length (List.filter Spec.specified [name; set; rarity; type]))%nat ->
    let cs := (Spec.clause ByName name ++ Spec.clause BySet set
               ++ Spec.clause ByRarity rarity ++ Spec.clause ByType type)%list in
    paths (run (select page pageSize name set rarity type) env s) =
      [Spec.pagination page pageSize ++ "q=" ++ String.concat " AND " cs]
    /\ List.length cs =
         List.length (List.filter Spec.specified [name; set; rarity; type]).
Proof.
  intros page pageSize name set rarity type env s Htwo cs.
  fold (Spec.clauses name set rarity type) in cs. subst cs.
  pose proof (clauses_length name set rarity type) as Hlen.
  split; [| exact Hlen].
  rewrite select_paths. unfold Spec.path. rewrite q_present; [reflexivity |].
  intro E. rewrite E in Hlen. rewrite <- Hlen in Htwo. simpl in Htwo. lia.
Qed.

Lemma select_joins_in_order_witness :
  paths (run (select None None (Some "pika chu") (Some "Base") None (Some "Lightning"))
           {| pokemonTcgApiKey := text "key";
              network := fun _ st => (Resolved {| data := object [] |}, st) |}
           state) =
    ["/cards?page=0&pageSize=0&q=name:pika*chu* AND set.name:Base* AND types:Lightning"].
Proof.
  refine (proj1 (select_joins_in_order None None (Some "pika chu") (Some "Base")
                   None (Some "Lightning") _ state _)).
  simpl. lia.
Defined.

(** ** Failures *)

(** Each call issues its one request from the store it has prepared. *)
Lemma invoke_single (c : Call) (env : Environment) (s : Store) :
  requests (events (run (invoke c) env s)) =
    [get_request (route c) [("X-Api-Key", pokemonTcgApiKey env)]]
  /\ suspensions (events (run (invoke c) env s)) = [prepared c s].
Proof.
  rewrite invoke_run. cbn [events requests suspensions].
  destruct (report_quiet (label_of c)
              (fst (network env
                 (get_request (route c) [("X-Api-Key", pokemonTcgApiKey env)])
                 (prepared c s)))) as (-> & -> & _).
  split; reflexivity.
Qed.

(** C2. Each action issues one request, and when the network rejects that
    request, so that the awaited HTTP call throws, [select] returns exactly
    [{ data: [], totalCount: 0, count: 0 }] and [getSet], [getRarity] and
    [getType] return exactly [{ data: [] }]: the action completes
    normally, the error does not reach the caller. *)
Theorem failure_returns_fallback :
  forall (c : Call) (env : Environment) (s : Store),
  exists (req : Request) (seen : Store),
    requests (events (run (invoke c) env s)) = [req]
    /\ suspensions (events (run (invoke c) env s)) = [seen]
    /\ forall e : AxiosError,
         fst (network env req seen) = Rejected e ->
         result (run (invoke c) env s) =
           Normal (match c with
                   | Select _ _ _ _ _ _ =>
                       object [("data", array []); ("totalCount", number 0);
                               ("count", number 0)]
                   | GetSet | GetRarity | GetType => object [("data", array [])]
                   end).
Proof.
  intros c env s.
  exists (get_request (route c) [("X-Api-Key", pokemonTcgApiKey env)]), (prepared c s).
  destruct (invoke_single c env s) as [Hreq Hseen].
  split; [exact Hreq | split; [exact Hseen |]].
  intros e He. rewrite invoke_run. cbn [result]. rewrite He.
  destruct c; reflexivity.
Qed.

Lemma failure_returns_fallback_witness :
  result (run (select (Some 1%Z) None (Some "mew") None None None) offline state) =
    Normal (object [("data", array []); ("totalCount", number 0); ("count", number 0)])
  /\ result (run getSet offline state) = Normal (object [("data", array [])])
  /\ result (run getRarity offline state) = Normal (object [("data", array [])])
  /\ result (run getType offline state) = Normal (object [("data", array [])]).
Proof.
  split; [| split; [| split]].
  - destruct (failure_returns_fallback
                (Select (Some 1%Z) None (Some "mew") None None None) offline state)
      as (req & seen & _ & _ & H).
    exact (H {| response := None; message := text "Network Error" |} eq_refl).
  - destruct (failure_returns_fallback GetSet offline state)
      as (req & seen & _ & _ & H).
    exact (H {| response := None; message := text "Network Error" |} eq_refl).
  - destruct (failure_returns_fallback GetRarity offline state)
      as (req & seen & _ & _ & H).
    exact (H {| response := None; message := text "Network Error" |} eq_refl).
  - destruct (failure_returns_fallback GetType offline state)
      as (req & seen & _ & _ & H).
    exact (H {| response := None; message := text "Network Error" |} eq_refl).
Defined.

(** ** The loading flag *)

(** C5. Each of the four actions issues its one request with [isLoading]
    set to [true], and ends with [isLoading] set to [false], however the
    request was settled. *)
Theorem isLoading_brackets_request :
  forall (c : Call) (env : Environment) (s : Store),
    List.map isLoading (suspensions (events (run (invoke c) env s))) = [true]
    /\ isLoading (final (run (invoke c) env s)) = false.
Proof.
  intros c env s. rewrite invoke_run. cbn [events final suspensions].
  destruct (report_quiet (label_of c)
              (fst (network env
                 (get_request (route c) [("X-Api-Key", pokemonTcgApiKey env)])
                 (prepared c s)))) as (_ & -> & _).
  split; [| reflexivity].
  destruct c; reflexivity.
Qed.

(** ** The echo of the filters *)

Lemma echo_with_isLoading (f : Filter) (b : bool) (s : Store) :
  echo f (with_isLoading b s) = echo f s.
Proof. destruct f; reflexivity. Qed.

Lemma echo_prepared (f : Filter) (c : Call) (s : Store) :
  echo f (prepared c s) = Spec.recorded (argument f c) (echo f s).
Proof. destruct c, f; reflexivity. Qed.

(** The echo of a filter at the one suspension of a call, and after it. *)
Lemma invoke_echo (f : Filter) (c : Call) (env : Environment) (s : Store) :
  List.map (echo f) (suspensions (events (run (invoke c) env s))) =
    [Spec.recorded (argument f c) (echo f s)]
  /\ List.map (echo f) (resumptions (events (run (invoke c) env s))) =
       [echo f (final (run (invoke c) env s))].
Proof.
  rewrite invoke_run. cbn [events final suspensions resumptions].
  destruct (report_quiet (label_of c)
              (fst (network env
                 (get_request (route c) [("X-Api-Key", pokemonTcgApiKey env)])
                 (prepared c s)))) as (_ & -> & ->).
  cbn [List.map]. rewrite echo_prepared, echo_with_isLoading. split; reflexivity.
Qed.

(** C6. In a call of [select], a filter given with a non-empty value [v]
    is recorded as it was given: when the request is issued the field of
    the store holds [v], and after the request is settled, with a response
    or with an error, the action leaves the field as it finds it. *)
Theorem select_records_raw_value :
  forall (page pageSize : option Z) (name set rarity type : option string)
         (env : Environment) (s : Store) (f : Filter) (v : string),
    argument f (Select page pageSize name set rarity type) = Some v ->
    v <> "" ->
    List.map (echo f)
      (suspensions (events (run (select page pageSize name set rarity type) env s))) = [v]
    /\ List.map (echo f)
         (resumptions (events (run (select page pageSize name set rarity type) env s))) =
         [echo f (final (run (select page pageSize name set rarity type) env s))].
Proof.
  intros page pageSize name set rarity type env s f v Harg Hv.
  change (select page pageSize name set rarity type)
    with (invoke (Select page pageSize name set rarity type)).
  destruct (invoke_echo f (Select page pageSize name set rarity type) env s)
    as [Hs Hr].
  split; [| exact Hr].
  rewrite Hs, Harg. simpl.
  destruct (v =? "") eqn:E; [apply String.eqb_eq in E; contradiction | reflexivity].
Qed.

Lemma select_records_raw_value_witness :
  let r := run (select None None None None None (Some "Fire Water")) offline state in
  List.map type (suspensions (events r)) = ["Fire Water"]
  /\ List.map type (resumptions (events r)) = [type (final r)].
Proof.
  refine (select_records_raw_value None None None None None (Some "Fire Water")
            offline state ByType "Fire Water" _ _).
  - reflexivity.
  - discriminate.
Defined.

(** C8. In a call of [select], a filter that is left out or given as the
    empty string is not written: when the request is issued the field of
    the store holds what it held before the call, and after the request is
    settled the action leaves the field as it finds it. *)
Theorem select_keeps_unspecified :
  forall (page pageSize : option Z) (name set rarity type : option string)
         (env : Environment) (s : Store) (f : Filter),
    argument f (Select page pageSize name set rarity type) = None
    \/ argument f (Select page pageSize name set rarity type) = Some "" ->
    List.map (echo f)
      (suspensions (events (run (select page pageSize name set rarity type) env s))) =
      [echo f s]
    /\ List.map (echo f)
         (resumptions (events (run (select page pageSize name set rarity type) env s))) =
         [echo f (final (run (select page pageSize name set rarity type) env s))].
Proof.
  intros page pageSize name set rarity type env s f Harg.
  change (select page pageSize name set rarity type)
    with (invoke (Select page pageSize name set rarity type)).
  destruct (invoke_echo f (Select page pageSize name set rarity type) env s)
    as [Hs Hr].
  split; [| exact Hr].
  rewrite Hs. destruct Harg as [-> | ->]; reflexivity.
Qed.

Lemma select_keeps_unspecified_witness :
  let before := final (run (select None None (Some "mew two") None None None)
                         online state) in
  let r := run (select None None (Some "") None None None) online before in
  List.map name (suspensions (events r)) = ["mew two"]
  /\ List.map name (resumptions (events r)) = [name (final r)].
Proof.
  refine (select_keeps_unspecified None None (Some "") None None None online
            (final (run (select None None (Some "mew two") None None None)
                      online state)) ByName _).
  right. reflexivity.
Defined.

(** When nothing else writes the store during the call, the store after a
    call is the store at its suspension with the loading flag cleared. *)
Lemma undisturbed_final (c : Call) (env : Environment) (s : Store) :
  undisturbed env ->
  final (run (invoke c) env s) = with_isLoading false (prepared c s).
Proof.
  intro H. rewrite invoke_run. cbn [final]. now rewrite H.
Qed.

Corollary undisturbed_echo (f : Filter) (c : Call) (env : Environment) (s : Store) :
  undisturbed env ->
  echo f (final (run (invoke c) env s)) = Spec.recorded (argument f c) (echo f s).
Proof.
  intro H. rewrite (undisturbed_final c env s H), echo_with_isLoading.
  apply echo_prepared.
Qed.

(** A search by name and then one without a name, with nothing in
    between: the name of the first search is still echoed. *)
Example echo_survives_next_search :
  forall v : string, v <> "" ->
    name (final (run (select None None None None None (Some "Fire")) online
                   (final (run (select None None (Some v) None None None)
                             online state)))) = v.
Proof.
  intros v Hv.
  assert (Hq : undisturbed online) by (intros req st; reflexivity).
  pose proof (undisturbed_echo ByName
                (Select None None None None None (Some "Fire")) online
                (final (run (select None None (Some v) None None None) online state))
                Hq) as H2.
  pose proof (undisturbed_echo ByName
                (Select None None (Some v) None None None) online state Hq) as H1.
  cbn [invoke echo argument Spec.recorded] in H1, H2.
  rewrite H2, H1. simpl.
  destruct (v =? "") eqn:E; [apply String.eqb_eq in E; contradiction | reflexivity].
Qed.

(** ** The API key *)

(** C7. Each of the four actions issues one request, and the headers of
    that request are the one header [X-Api-Key] with the key of the
    runtime configuration. *)
Theorem requests_carry_api_key :
  forall (c : Call) (env : Environment) (s : Store),
    List.map headers (requests (events (run (invoke c) env s))) =
      [[("X-Api-Key", pokemonTcgApiKey env)]].
Proof.
  intros c env s. rewrite invoke_run. cbn [events requests].
  destruct (report_quiet (label_of c)
              (fst (network env
                 (get_request (route c) [("X-Api-Key", pokemonTcgApiKey env)])
                 (prepared c s)))) as (-> & _).
  reflexivity.
Qed.

(** ** The cards *)

(** A call leaves in [cards] what it finds there when it resumes, and
    hands over to the network what it found at its start. *)
Lemma invoke_cards (c : Call) (env : Environment) (w : World) :
  (forall req st, cards (snd (network env req st)) = cards st) ->
  cards (store (snd (invoke c env w))) = cards (store w).
Proof.
  intro H. rewrite invoke_world. cbn [snd store].
  unfold with_isLoading; cbn [cards]. rewrite H.
  destruct c; reflexivity.
Qed.

Lemma invoke_all_cards (calls : list Call) (env : Environment) :
  (forall req st, cards (snd (network env req st)) = cards st) ->
  forall w : World,
    cards (store (snd (invoke_all calls env w))) = cards (store w).
Proof.
  intro H. induction calls as [| c rest IH]; intro w.
  - reflexivity.
  - cbn [invoke_all]. unfold bind at 1.
    pose proof (invoke_cards c env w H) as Hc.
    destruct (invoke c env w) as [[v | e] w1]; cbn [snd] in Hc |- *.
    + unfold bind at 1. specialize (IH w1).
      destruct (invoke_all rest env w1) as [[vs | e] w2]; cbn [snd] in IH |- *;
        unfold ret; cbn [snd]; congruence.
    + exact Hc.
Qed.

(** C9. Whatever actions are called, one after the other, and however
    their requests are settled, the [cards] of the store stay as they
    were, provided nothing else writes them while a request is awaited;
    from the initial state of the store they stay the empty array. *)
Theorem cards_never_written :
  forall (calls : list Call) (env : Environment) (s : Store),
    (forall req st, cards (snd (network env req st)) = cards st) ->
    cards (final (run (invoke_all calls) env s)) = cards s
    /\ cards (final (run (invoke_all calls) env state)) = [].
Proof.
  intros calls env s H.
  assert (Hrun : forall s0, cards (final (run (invoke_all calls) env s0)) = cards s0).
  { intro s0. unfold run.
    pose proof (invoke_all_cards calls env H {| store := s0; trace := [] |}) as Hc.
    destruct (invoke_all calls env {| store := s0; trace := [] |}) as [c w].
    exact Hc. }
  split; [apply Hrun | apply (Hrun state)].
Qed.

Lemma cards_never_written_witness :
  cards (final (run (invoke_all
                       [GetSet; Select None None (Some "mew") None None None;
                        GetType; GetRarity])
                  online state)) = [].
Proof.
  refine (proj2 (cards_never_written
                   [GetSet; Select None None (Some "mew") None None None;
                    GetType; GetRarity] online state _)).
  intros req st. reflexivity.
Defined.

(** ** Determinism of the path *)

(** C10. The path [select] requests depends on its six arguments only:
    two calls with the same arguments request the same one path, whatever
    the state of the store and the environment of each. *)
Theorem select_path_deterministic :
  forall (page pageSize : option Z) (name set rarity type : option string)
         (env1 env2 : Environment) (s1 s2 : Store),
    paths (run (select page pageSize name set rarity type) env1 s1) =
      paths (run (select page pageSize name set rarity type) env2 s2)
    /\ List.length (paths (run (select page pageSize name set rarity type) env1 s1)) = 1%nat.
Proof.
  intros. rewrite !select_paths. split; reflexivity.
Qed.

(** * Further properties of the store *)

(** ** What a call returns and prints *)

(** X1. Each action issues one request, and when the network answers
    that request, the action returns the payload of the response as it is,
    prints nothing, and leaves the store as it finds it on resuming, with
    the loading flag cleared. *)
Theorem success_returns_payload :
  forall (c : Call) (env : Environment) (s : Store),
  exists (req : Request) (seen : Store),
    requests (events (run (invoke c) env s)) = [req]
    /\ suspensions (events (run (invoke c) env s)) = [seen]
    /\ forall r : Response,
         fst (network env req seen) = Resolved r ->
         result (run (invoke c) env s) = Normal (data r)
         /\ events (run (invoke c) env s) =
              [Awaited req seen (Resolved r) (snd (network env req seen))]
         /\ final (run (invoke c) env s) =
              with_isLoading false (snd (network env req seen)).
Proof.
  intros c env s.
  exists (get_request (route c) [("X-Api-Key", pokemonTcgApiKey env)]), (prepared c s).
  destruct (invoke_single c env s) as [Hreq Hseen].
  split; [exact Hreq | split; [exact Hseen |]].
  intros r Hr. rewrite invoke_run. cbn [result events final]. rewrite Hr.
  repeat split.
Qed.

Lemma success_returns_payload_witness :
  result (run getSet online state) = Normal (object [("data", array [])])
  /\ result (run (select None None (Some "mew") None None None) online state) =
       Normal (object [("data", array [])])
  /\ result (run getRarity online state) = Normal (object [("data", array [])])
  /\ result (run getType online state) = Normal (object [("data", array [])]).
Proof.
  split; [| split; [| split]].
  - destruct (success_returns_payload GetSet online state)
      as (req & seen & _ & _ & H).
    exact (proj1 (H {| data := object [("data", array [])] |} eq_refl)).
  - destruct (success_returns_payload
                (Select None None (Some "mew") None None None) online state)
      as (req & seen & _ & _ & H).
    exact (proj1 (H {| data := object [("data", array [])] |} eq_refl)).
  - destruct (success_returns_payload GetRarity online state)
      as (req & seen & _ & _ & H).
    exact (proj1 (H {| data := object [("data", array [])] |} eq_refl)).
  - destruct (success_returns_payload GetType online state)
      as (req & seen & _ & _ & H).
    exact (proj1 (H {| data := object [("data", array [])] |} eq_refl)).
Defined.

(** X2. Each action issues one request, and when the network rejects that
    request, the action prints exactly one line with [console.error],
    after the request: the label of the action and the payload of the
    error response if there is one and it is truthy, the message of the
    error otherwise. *)
Theorem failure_logs_once :
  forall (c : Call) (env : Environment) (s : Store),
  exists (req : Request) (seen : Store),
    requests (events (run (invoke c) env s)) = [req]
    /\ suspensions (events (run (invoke c) env s)) = [seen]
    /\ forall e : AxiosError,
         fst (network env req seen) = Rejected e ->
         events (run (invoke c) env s) =
           [Awaited req seen (Rejected e) (snd (network env req seen));
            Logged (match c with
                    | Select _ _ _ _ _ _ => "API Error:"
                    | GetSet => "getSet Error:"
                    | GetRarity => "getRarity Error:"
                    | GetType => "getType Error:"
                    end)
                   (match response e with
                    | Some r => if truthy (data r) then data r else message e
                    | None => message e
                    end)].
Proof.
  intros c env s.
  exists (get_request (route c) [("X-Api-Key", pokemonTcgApiKey env)]), (prepared c s).
  destruct (invoke_single c env s) as [Hreq Hseen].
  split; [exact Hreq | split; [exact Hseen |]].
  intros e He. rewrite invoke_run. cbn [events]. rewrite He.
  unfold report, Js.or, response_data. destruct (response e); destruct c; reflexivity.
Qed.

(** When the server answers every request with a status 404 and an empty
    body, each action prints its label and the message of the error. *)
Lemma failure_logs_once_witness :
  let not_found :=
    {| response := Some {| data := text "" |};
       message := text "Request failed with status code 404" |} in
  let env :=
    {| pokemonTcgApiKey := text "key";
       network := fun _ st => (Rejected not_found, st) |} in
  List.tl (events (run getType env state)) =
    [Logged "getType Error:" (text "Request failed with status code 404")]
  /\ List.tl (events (run getSet env state)) =
       [Logged "getSet Error:" (text "Request failed with status code 404")]
  /\ List.tl (events (run getRarity env state)) =
       [Logged "getRarity Error:" (text "Request failed with status code 404")]
  /\ List.tl (events (run (select None None None None None None) env state)) =
       [Logged "API Error:" (text "Request failed with status code 404")].
Proof.
  intros not_found env. split; [| split; [| split]].
  - destruct (failure_logs_once GetType env state) as (req & seen & _ & _ & H).
    change (run getType env state) with (run (invoke GetType) env state).
    rewrite (H not_found eq_refl). reflexivity.
  - destruct (failure_logs_once GetSet env state) as (req & seen & _ & _ & H).
    change (run getSet env state) with (run (invoke GetSet) env state).
    rewrite (H not_found eq_refl). reflexivity.
  - destruct (failure_logs_once GetRarity env state) as (req & seen & _ & _ & H).
    change (run getRarity env state) with (run (invoke GetRarity) env state).
    rewrite (H not_found eq_refl). reflexivity.
  - destruct (failure_logs_once (Select None None None None None None) env state)
      as (req & seen & _ & _ & H).
    change (run (select None None None None None None) env state)
      with (run (invoke (Select None None None None None None)) env state).
    rewrite (H not_found eq_refl). reflexivity.
Defined.

(** X3. Each action issues exactly one request, whatever the store and
    the environment: a GET on the base URL of the API, for the listings at
    the paths [/sets], [/rarities] and [/types]. *)
Theorem one_get_request :
  forall (c : Call) (env : Environment) (s : Store),
    List.map (fun r => (baseURL r, method r))
      (requests (events (run (invoke c) env s))) =
      [("https://api.pokemontcg.io/v2", "get")]
    /\ paths (run getSet env s) = ["/sets"]
    /\ paths (run getRarity env s) = ["/rarities"]
    /\ paths (run getType env s) = ["/types"].
Proof.
  intros c env s.
  assert (H : forall c0, requests (events (run (invoke c0) env s)) =
                [get_request (route c0) [("X-Api-Key", pokemonTcgApiKey env)]]).
  { intro c0. rewrite invoke_run. cbn [events requests].
    destruct (report_quiet (label_of c0)
                (fst (network env
                   (get_request (route c0) [("X-Api-Key", pokemonTcgApiKey env)])
                   (prepared c0 s)))) as (-> & _).
    reflexivity. }
  unfold paths.
  change getSet with (invoke GetSet). change getRarity with (invoke GetRarity).
  change getType with (invoke GetType).
  rewrite !H. repeat split.
Qed.

(** ** Series of calls *)

Lemma requests_app (a b : list Event) :
  requests (a ++ b) = (requests a ++ requests b)%list.
Proof.
  induction a as [| ev a IH]; simpl; [reflexivity |].
  destruct ev; simpl; now rewrite IH.
Qed.

(** A series of calls on any world: it completes, with one result and
    one request for each call. *)
Lemma invoke_all_world (calls : list Call) (env : Environment) :
  forall w : World,
    exists (vs : list Value) (w' : World),
      invoke_all calls env w = (Normal vs, w')
      /\ List.length vs = List.length calls
      /\ List.length (requests (trace w')) =
           (List.length (requests (trace w)) + List.length calls)%nat.
Proof.
  induction calls as [| c rest IH]; intro w.
  - exists [], w. cbn. repeat split. lia.
  - cbn [invoke_all]. unfold bind. rewrite invoke_world. cbv beta iota.
    match goal with
    | |- context [invoke_all rest env ?w1] =>
        destruct (IH w1) as (vs & w' & Hrun & Hlen & Hreq)
    end.
    rewrite Hrun. unfold ret.
    eexists _, w'. split; [reflexivity |]. split; [simpl; lia |].
    rewrite Hreq. cbn [trace]. rewrite requests_app. cbn [requests].
    rewrite (proj1 (report_quiet _ _)). rewrite length_app. simpl. lia.
Qed.

(** X4. A series of calls, each awaited before the next, never throws,
    however the requests are settled: it yields one result for each call
    and issues one request for each call, none is retried. *)
Theorem series_completes :
  forall (calls : list Call) (env : Environment) (s : Store),
    exists vs : list Value,
      result (run (invoke_all calls) env s) = Normal vs
      /\ List.length vs = List.length calls
      /\ List.length (requests (events (run (invoke_all calls) env s))) =
           List.length calls.
Proof.
  intros calls env s. unfold run.
  destruct (invoke_all_world calls env {| store := s; trace := [] |})
    as (vs & w' & -> & Hlen & Hreq).
  exists vs. cbn [result events]. repeat split; [exact Hlen | exact Hreq].
Qed.

Lemma invoke_all_isLoading (calls : list Call) (env : Environment) :
  forall w : World,
    isLoading (store (snd (invoke_all calls env w))) =
      match calls with
      | [] => isLoading (store w)
      | _ :: _ => false
      end.
Proof.
  induction calls as [| c rest IH]; intro w.
  - reflexivity.
  - cbn [invoke_all]. unfold bind. rewrite invoke_world. cbv beta iota.
    match goal with
    | |- context [invoke_all rest env ?w1] =>
        specialize (IH w1);
        destruct (invoke_all_world rest env w1) as (vs & w' & Hrun & _)
    end.
    rewrite Hrun in IH |- *. unfold ret. cbn [snd] in IH |- *.
    rewrite IH. destruct rest; reflexivity.
Qed.

(** X5. After a series of at least one call the loading flag is off,
    whatever the flag was before, however the requests were settled and
    whatever other code wrote to the store while they were awaited. *)
Theorem series_ends_not_loading :
  forall (calls : list Call) (env : Environment) (s : Store),
    calls <> [] ->
    isLoading (final (run (invoke_all calls) env s)) = false.
Proof.
  intros calls env s Hne. unfold run.
  pose proof (invoke_all_isLoading calls env {| store := s; trace := [] |}) as H.
  destruct (invoke_all calls env {| store := s; trace := [] |}) as [c w].
  cbn [snd final] in H |- *. rewrite H. destruct calls; [congruence | reflexivity].
Qed.

Lemma series_ends_not_loading_witness :
  isLoading
    (final (run (invoke_all [GetSet; Select None None (Some "mew") None None None])
              offline (with_isLoading true state))) = false.
Proof.
  apply (series_ends_not_loading
           [GetSet; Select None None (Some "mew") None None None] offline
           (with_isLoading true state)).
  discriminate.
Defined.

Lemma invoke_all_echo (f : Filter) (calls : list Call) (env : Environment) :
  undisturbed env ->
  forall w : World,
    echo f (store (snd (invoke_all calls env w))) =
      echo_after f calls (echo f (store w)).
Proof.
  intro Hq. induction calls as [| c rest IH]; intro w.
  - reflexivity.
  - cbn [invoke_all]. unfold bind. rewrite invoke_world. cbv beta iota.
    match goal with
    | |- context [invoke_all rest env ?w1] =>
        specialize (IH w1);
        destruct (invoke_all_world rest env w1) as (vs & w' & Hrun & _)
    end.
    rewrite Hrun in IH |- *. unfold ret. cbn [snd store] in IH |- *.
    rewrite IH, Hq, echo_with_isLoading, echo_prepared. reflexivity.
Qed.

(** X7. After a series of calls on a store that nothing else writes, the
    echo of a filter is the raw value of the last search that specified
    the filter, and the echo from before the series when no search did:
    searches without the filter and listings keep it. *)
Theorem series_echoes_last_specified :
  forall (f : Filter) (calls : list Call) (env : Environment) (s : Store),
    undisturbed env ->
    echo f (final (run (invoke_all calls) env s)) =
      List.fold_left
        (fun old c =>
           match argument f c with
           | Some v => if v =? "" then old else v
           | None => old
           end)
        calls (echo f s).
Proof.
  intros f calls env s Hq. unfold run.
  pose proof (invoke_all_echo f calls env Hq {| store := s; trace := [] |}) as H.
  destruct (invoke_all calls env {| store := s; trace := [] |}) as [c w].
  exact H.
Qed.

Lemma series_echoes_last_specified_witness :
  rarity
    (final (run (invoke_all
                   [Select None None None None (Some "Rare") None;
                    Select None None None None (Some "Rare Holo") (Some "Fire");
                    GetType;
                    Select None None (Some "mew") None (Some "") None])
              online state)) = "Rare Holo".
Proof.
  refine (series_echoes_last_specified ByRarity
            [Select None None None None (Some "Rare") None;
             Select None None None None (Some "Rare Holo") (Some "Fire");
             GetType;
             Select None None (Some "mew") None (Some "") None]
            online state _).
  intros req st. reflexivity.
Defined.

(** X6. A listing writes nothing but the loading flag: on a store that
    nothing else writes, [getSet], [getRarity] and [getType] leave the
    cards and the four echoes as they were and the flag off, whether the
    request is answered or fails. *)
Theorem listing_writes_only_flag :
  forall (c : Call) (env : Environment) (s : Store),
    undisturbed env ->
    c = GetSet \/ c = GetRarity \/ c = GetType ->
    final (run (invoke c) env s) =
      {| cards := cards s; isLoading := false; name := name s;
         set := set s; rarity := rarity s; type := type s |}.
Proof.
  intros c env s Hq Hc. rewrite (undisturbed_final c env s Hq).
  destruct Hc as [-> | [-> | ->]]; reflexivity.
Qed.

Lemma listing_writes_only_flag_witness :
  final (run (invoke GetRarity) offline
           {| cards := []; isLoading := false; name := "mew"; set := "Base";
              rarity := ""; type := "Fire" |}) =
    {| cards := []; isLoading := false; name := "mew"; set := "Base";
       rarity := ""; type := "Fire" |}.
Proof.
  refine (listing_writes_only_flag GetRarity offline _ _ _).
  - intros req st. reflexivity.
  - right. left. reflexivity.
Defined.

(** ** Edges of the query *)

Lemma replaceAll_length (v : string) :
  String.length (replaceAll " " "*" v) = String.length v.
Proof.
  induction v as [| c v IH]; simpl; [reflexivity |].
  destruct (Ascii.eqb c " "); simpl; now rewrite IH.
Qed.

Lemma replaceAll_no_space (v : string) :
  has_space (replaceAll " " "*" v) = false.
Proof.
  induction v as [| c v IH]; simpl; [reflexivity |].
  destruct (Ascii.eqb c " ") eqn:E; simpl; rewrite ?E, IH; reflexivity.
Qed.

Lemma has_space_app (a b : string) :
  has_space (a ++ b) = has_space a || has_space b.
Proof.
  induction a as [| c a IH]; simpl; [reflexivity |].
  now rewrite IH, orb_assoc.
Qed.

Lemma clause_no_space (f : Filter) (arg : option string) :
  List.forallb (fun cl => negb (has_space cl)) (Spec.clause f arg) = true.
Proof.
  destruct arg as [v | ]; simpl; [| reflexivity].
  destruct (v =? ""); [reflexivity |]. simpl.
  destruct f; unfold Spec.clause_of;
    rewrite !has_space_app, replaceAll_no_space; reflexivity.
Qed.

(** X9. No clause of a search holds a space, whatever the filters: the
    only spaces of the path [select] requests are those of the [" AND "]
    between the clauses.  The transformed value of a filter is as long as
    the value. *)
Theorem select_clauses_without_space :
  forall (page pageSize : option Z) (name set rarity type : option string)
         (env : Environment) (s : Store),
    paths (run (select page pageSize name set rarity type) env s) =
      [Spec.pagination page pageSize
       ++ match Spec.clauses name set rarity type with
          | [] => ""
          | cs => "q=" ++ String.concat " AND " cs
          end]
    /\ List.forallb (fun cl => negb (has_space cl))
         (Spec.clauses name set rarity type) = true
    /\ has_space (Spec.pagination page pageSize) = false
    /\ (forall v : string,
          String.length (replaceAll " " "*" v) = String.length v).
Proof.
  intros page pageSize name set rarity type env s.
  split; [| split; [| split]].
  - rewrite select_paths. unfold Spec.path, Spec.q.
    destruct (Spec.clauses name set rarity type); reflexivity.
  - unfold Spec.clauses. rewrite !forallb_app, !clause_no_space. reflexivity.
  - unfold Spec.pagination. rewrite !has_space_app. simpl.
    assert (Hu : forall u, has_space (NilEmpty.string_of_uint u) = false)
      by (induction u; simpl; auto).
    assert (H : forall z, has_space (Number_toString z) = false).
    { intro z. unfold Number_toString, NilZero.string_of_int, NilZero.string_of_uint.
      destruct (Z.to_int z) as [u | u]; simpl; destruct u; simpl; auto. }
    now rewrite !H.
  - apply replaceAll_length.
Qed.

Lemma replaceAll_without_space (v : string) :
  has_space v = false -> replaceAll " " "*" v = v.
Proof.
  induction v as [| c v IH]; simpl; [reflexivity |].
  destruct (Ascii.eqb c " "); simpl; [discriminate |].
  intro H. now rewrite IH.
Qed.

Lemma replaceAll_app (a b : string) :
  replaceAll " " "*" (a ++ b) = replaceAll " " "*" a ++ replaceAll " " "*" b.
Proof.
  induction a as [| c a IH]; simpl; [reflexivity |].
  destruct (Ascii.eqb c " "); simpl; now rewrite IH.
Qed.

Lemma nonempty_eqb (v : string) : v <> "" -> (v =? "") = false.
Proof.
  intro H. destruct (v =? "") eqn:E; [apply String.eqb_eq in E; contradiction | reflexivity].
Qed.

(** The path of a search by name alone. *)
Lemma select_name_path page pageSize (v : string) env s :
  v <> "" ->
  paths (run (select page pageSize (Some v) None None None) env s) =
    [Spec.pagination page pageSize ++ "q=name:" ++ replaceAll " " "*" v ++ "*"].
Proof.
  intro Hv. rewrite select_paths.
  unfold Spec.path, Spec.clauses, Spec.clause. rewrite (nonempty_eqb v Hv).
  reflexivity.
Qed.

(** X10. A filter value without a space goes into the path as it is:
    nothing is escaped or encoded, so a search for such a name alone
    requests the pagination followed by [q=name:], the value and the
    trailing wildcard. *)
Theorem select_sends_value_verbatim :
  forall (page pageSize : option Z) (v : string) (env : Environment) (s : Store),
    v <> "" ->
    has_space v = false ->
    replaceAll " " "*" v = v
    /\ paths (run (select page pageSize (Some v) None None None) env s) =
         [Spec.pagination page pageSize ++ "q=name:" ++ v ++ "*"].
Proof.
  intros page pageSize v env s Hv Hs.
  pose proof (replaceAll_without_space v Hs) as E.
  split; [exact E |]. rewrite (select_name_path page pageSize v env s Hv).
  now rewrite E.
Qed.

Lemma select_sends_value_verbatim_witness :
  paths (run (select None None (Some "x&page=5") None None None) online state) =
    ["/cards?page=0&pageSize=0&q=name:x&page=5*"].
Proof.
  refine (proj2 (select_sends_value_verbatim None None "x&page=5" online state _ _)).
  - discriminate.
  - reflexivity.
Defined.

Lemma space_wildcard_differ (u v : string) : u ++ " " ++ v <> u ++ "*" ++ v.
Proof.
  induction u as [| c u IH]; simpl; [discriminate |].
  intro H. injection H as H. auto.
Qed.

Lemma append_char_nonempty (u v : string) (c : ascii) : u ++ String c v <> "".
Proof. destruct u; discriminate. Qed.

(** X11. A wildcard typed into a name is not told apart from a space: a
    search for [u v] and a search for [u*v] request the same path,
    although the two names are different texts. *)
Theorem select_space_and_wildcard_collide :
  forall (page pageSize : option Z) (u v : string)
         (env1 env2 : Environment) (s1 s2 : Store),
    paths (run (select page pageSize (Some (u ++ " " ++ v)) None None None) env1 s1) =
      paths (run (select page pageSize (Some (u ++ "*" ++ v)) None None None) env2 s2)
    /\ u ++ " " ++ v <> u ++ "*" ++ v.
Proof.
  intros page pageSize u v env1 env2 s1 s2. split.
  - rewrite !select_name_path by apply append_char_nonempty.
    rewrite !replaceAll_app. reflexivity.
  - apply space_wildcard_differ.
Qed.

Lemma replaceAll_spaces (n : nat) :
  replaceAll " " "*" (repeat_char " " n) = repeat_char "*" n.
Proof. induction n as [| n IH]; simpl; [reflexivity | now rewrite IH]. Qed.

Lemma repeat_char_snoc (c : ascii) (n : nat) :
  repeat_char c n ++ String c "" = repeat_char c (S n).
Proof. induction n as [| n IH]; simpl; [reflexivity | now rewrite IH]. Qed.

(** X12. A filter made of spaces only is not taken for an empty filter:
    a name of [n + 1] spaces is searched for, as [n + 2] wildcards, and is
    recorded in the store as it was given. *)
Theorem select_blank_filter_is_specified :
  forall (n : nat) (env : Environment) (s : Store),
    paths (run (select None None (Some (repeat_char " " (S n))) None None None) env s) =
      ["/cards?page=0&pageSize=0&q=name:" ++ repeat_char "*" (S (S n))]
    /\ List.map name
         (suspensions
            (events (run (select None None (Some (repeat_char " " (S n))) None None None)
                       env s))) =
         [repeat_char " " (S n)].
Proof.
  intros n env s. split.
  - rewrite select_name_path by discriminate.
    rewrite replaceAll_spaces, repeat_char_snoc. reflexivity.
  - change (select None None (Some (repeat_char " " (S n))) None None None)
      with (invoke (Select None None (Some (repeat_char " " (S n))) None None None)).
    rewrite (proj1 (invoke_echo ByName _ env s)). reflexivity.
Qed.

(** ** Overlapping calls *)

(** X13. The loading flag is a single flag, not a count of the calls in
    flight: when a second call is made and completes while a first call is
    awaited, the first call finds the flag off on resuming, and each of
    the two calls had the flag on when it issued its request. *)
Theorem overlapping_call_clears_flag :
  forall (c other : Call) (env : Environment) (reply : Reply) (s : Store),
    List.map isLoading
      (suspensions (events (run (invoke c) (meanwhile other env reply) s))) = [true]
    /\ List.map isLoading
         (resumptions (events (run (invoke c) (meanwhile other env reply) s))) = [false]
    /\ forall seen : Store,
         List.map isLoading (suspensions (events (run (invoke other) env seen))) = [true].
Proof.
  intros c other env reply s.
  assert (Hs : forall c0 env0 s0,
             List.map isLoading (suspensions (events (run (invoke c0) env0 s0))) = [true]).
  { intros c0 env0 s0. rewrite invoke_run. cbn [events suspensions].
    rewrite (proj1 (proj2 (report_quiet _ _))). destruct c0; reflexivity. }
  split; [apply Hs | split; [| intro seen; apply Hs]].
  rewrite invoke_run. cbn [events resumptions].
  rewrite (proj2 (proj2 (report_quiet _ _))).
  unfold meanwhile; cbn [network snd List.map].
  rewrite invoke_run. reflexivity.
Qed.

(** X14. When a second call is made and completes while a first call is
    awaited, and nothing else writes the store, the echo of a filter after
    the first call is that of the second call if it specified the filter,
    else that of the first call if it did, else the one from before. *)
Theorem overlapping_call_echo :
  forall (f : Filter) (c other : Call) (env : Environment) (reply : Reply) (s : Store),
    undisturbed env ->
    echo f (final (run (invoke c) (meanwhile other env reply) s)) =
      match argument f other with
      | Some v => if v =? "" then
                    match argument f c with
                    | Some u => if u =? "" then echo f s else u
                    | None => echo f s
                    end
                  else v
      | None => match argument f c with
                | Some u => if u =? "" then echo f s else u
                | None => echo f s
                end
      end.
Proof.
  intros f c other env reply s Hq.
  rewrite invoke_run. cbn [final]. rewrite echo_with_isLoading.
  unfold meanwhile at 1; cbn [network snd].
  rewrite (undisturbed_echo f other env _ Hq), echo_prepared.
  unfold Spec.recorded. destruct (argument f other) as [v | ]; reflexivity.
Qed.

Lemma overlapping_call_echo_witness :
  name (final (run (invoke (Select None None (Some "mew") None None None))
                 (meanwhile (Select None None (Some "abra") None None None)
                    online (Resolved {| data := null |}))
                 state)) = "abra".
Proof.
  refine (overlapping_call_echo ByName
            (Select None None (Some "mew") None None None)
            (Select None None (Some "abra") None None None)
            online (Resolved {| data := null |}) state _).
  intros req st. reflexivity.
Defined.
